(** * nano_libc: a shallow embedding of [src/nano_libc.c]

    The file provides [strcpy], [debug_puts] and [__assert_fail] for a
    freestanding seL4 build.  The embedding keeps the C view of the world:

    - a [char] is an [ascii] (eight bits), the terminator is [zero];
    - a pointer is an address in [Z]; memory is a finite map from the
      allocated addresses to the byte stored there ([gmap Z ascii]);
      dereferencing an address that is not allocated is undefined behaviour;
    - the extern [seL4_DebugPutChar] is observed through the list of the
      characters it was called with, in call order;
    - the two [while] loops are written with fuel, and running out of fuel is
      kept apart from undefined behaviour and from the trap;
    - the [#ifdef KernelPrinting] is a boolean fixed for the whole program. *)

From Stdlib Require Import ZArith Ascii String.
From stdpp Require Import gmap strings list fin_maps.

Local Open Scope Z_scope.

(** ** Machine state and outcomes *)

Record state : Type := mkState {
  memory : gmap Z ascii;
  putchar_calls : list ascii
}.

Inductive result (A : Type) : Type :=
| Ret (a : A) (s : state)
| Trap (s : state)
| Undefined
| Timeout.

Arguments Ret {A} a s.
Arguments Trap {A} s.
Arguments Undefined {A}.
Arguments Timeout {A}.

Definition M (A : Type) : Type := state → result A.

Definition ret {A} (a : A) : M A := fun s => Ret a s.

Definition bind {A B} (c : M A) (k : A → M B) : M B :=
  fun s =>
    match c s with
    | Ret a s' => k a s'
    | Trap s' => Trap s'
    | Undefined => Undefined
    | Timeout => Timeout
    end.

Notation "'do' x <- c ; k" := (bind c (fun x => k))
  (at level 10, x name, c at level 100, k at level 200).
Notation "c ;; k" := (bind c (fun _ => k))
  (at level 100, k at level 200, right associativity).

(** [*p] as an rvalue. *)
Definition load (p : Z) : M ascii :=
  fun s =>
    match memory s !! p with
    | Some c => Ret c s
    | None => Undefined
    end.

(** [*p = c]. *)
Definition store (p : Z) (c : ascii) : M unit :=
  fun s =>
    match memory s !! p with
    | Some _ => Ret tt (mkState (<[p := c]> (memory s)) (putchar_calls s))
    | None => Undefined
    end.

(** The host primitive: one character per call, nothing returned.  It is
    defined outside this file; the model records the call and takes the
    primitive to leave the memory of the program alone. *)
Definition seL4_DebugPutChar (c : ascii) : M unit :=
  fun s => Ret tt (mkState (memory s) (putchar_calls s ++ [c])).

Definition __builtin_trap {A} : M A := fun s => Trap s.

Definition timeout {A} : M A := fun _ => Timeout.

(** ** strcpy *)

(** [while ( ( *s1++ = *s2++ ) );] : the byte is read through [s2], stored
    through [s1], both pointers move on, and the stored byte is the
    condition. *)
Fixpoint strcpy_loop (fuel : nat) (s1 s2 : Z) : M unit :=
  match fuel with
  | O => timeout
  | S fuel' =>
      do c <- load s2;
      store s1 c;;
      if decide (c = zero) then ret tt
      else strcpy_loop fuel' (s1 + 1) (s2 + 1)
  end.

Definition strcpy (fuel : nat) (s1 s2 : Z) : M Z :=
  let rc := s1 in
  strcpy_loop fuel s1 s2;;
  ret rc.

(** ** debug_puts *)

Fixpoint debug_puts_loop (fuel : nat) (s : Z) : M unit :=
  match fuel with
  | O => timeout
  | S fuel' =>
      do c <- load s;
      if decide (c = zero) then ret tt
      else seL4_DebugPutChar c;; debug_puts_loop fuel' (s + 1)
  end.

Definition debug_puts (KernelPrinting : bool) (fuel : nat) (s : Z) : M unit :=
  if KernelPrinting then debug_puts_loop fuel s else ret tt.

(** ** __assert_fail *)

(** The four string literals of [__assert_fail] live in static storage; the
    record gives the address the linker chose for each. *)
Record literals : Type := mkLiterals {
  lit_ASSERT : Z;
  lit_in : Z;
  lit_at : Z;
  lit_line : Z
}.

Definition __assert_fail (KernelPrinting : bool) (L : literals) (fuel : nat)
    (expr file : Z) (line : Z) (func : Z) : M unit :=
  debug_puts KernelPrinting fuel (lit_ASSERT L);;
  debug_puts KernelPrinting fuel expr;;
  debug_puts KernelPrinting fuel (lit_in L);;
  debug_puts KernelPrinting fuel func;;
  debug_puts KernelPrinting fuel (lit_at L);;
  debug_puts KernelPrinting fuel file;;
  debug_puts KernelPrinting fuel (lit_line L);;
  __builtin_trap.

(** ** Vocabulary of the specification *)

(** [cstring_at m p cs]: memory [m] holds at [p] the bytes [cs], none of them
    zero, followed by the terminator. *)
Fixpoint cstring_at (m : gmap Z ascii) (p : Z) (cs : list ascii) : Prop :=
  match cs with
  | [] => m !! p = Some zero
  | c :: cs' => c ≠ zero ∧ m !! p = Some c ∧ cstring_at m (p + 1) cs'
  end.

(** [writable m p n]: the [n] addresses from [p] on are allocated. *)
Fixpoint writable (m : gmap Z ascii) (p : Z) (n : nat) : Prop :=
  match n with
  | O => True
  | S n' => is_Some (m !! p) ∧ writable m (p + 1) n'
  end.

(** The stores of a copy, in the order the loop performs them. *)
Fixpoint write_bytes (m : gmap Z ascii) (p : Z) (bs : list ascii)
    : gmap Z ascii :=
  match bs with
  | [] => m
  | b :: bs' => write_bytes (<[p := b]> m) (p + 1) bs'
  end.

(** The source sequence with its terminator, and its length [n]. *)
Definition with_terminator (cs : list ascii) : list ascii := cs ++ [zero].

Definition size_with_terminator (cs : list ascii) : nat := S (length cs).

(** The copy is not corrupted while in progress: the destination does not
    start strictly inside the source. *)
Definition copy_safe (s1 s2 : Z) (n : nat) : Prop :=
  s1 ≤ s2 ∨ s2 + Z.of_nat n ≤ s1.

(** Source and destination do not share a byte. *)
Definition disjoint_buffers (s1 s2 : Z) (n : nat) : Prop :=
  s1 + Z.of_nat n ≤ s2 ∨ s2 + Z.of_nat n ≤ s1.

(** The literals of [__assert_fail]. *)
Definition marker : list ascii := list_ascii_of_string "ASSERT ".
Definition separator_in : list ascii := list_ascii_of_string " in ".
Definition separator_at : list ascii := list_ascii_of_string " at ".
Definition line_placeholder : list ascii := list_ascii_of_string ":??".

Definition literals_loaded (m : gmap Z ascii) (L : literals) : Prop :=
  cstring_at m (lit_ASSERT L) marker ∧
  cstring_at m (lit_in L) separator_in ∧
  cstring_at m (lit_at L) separator_at ∧
  cstring_at m (lit_line L) line_placeholder.

(** What the seven [debug_puts] calls hand to the host primitive. *)
Definition diagnostic (E N F : list ascii) : list ascii :=
  marker ++ E ++ separator_in ++ N ++ separator_at ++ F ++ line_placeholder.

Definition emitted (KernelPrinting : bool) (cs : list ascii) : list ascii :=
  if KernelPrinting then cs else [].

Definition enough_fuel (fuel : nat) (E N F : list ascii) : Prop :=
  (length marker < fuel ∧ length E < fuel ∧ length N < fuel ∧
   length F < fuel)%nat.

(** ** Concrete memories used to run the definitions *)

Definition place (p : Z) (cs : list ascii) (m : gmap Z ascii)
    : gmap Z ascii :=
  write_bytes m p (with_terminator cs).

Definition reserve (p : Z) (n : nat) (m : gmap Z ascii) : gmap Z ascii :=
  write_bytes m p (replicate n "#"%char).

Definition str (s : string) : list ascii := list_ascii_of_string s.

(** Source string "hi" at 100, a four byte destination at 200. *)
Definition copy_memory : gmap Z ascii :=
  reserve 200 4 (place 100 (str "hi") ∅).

Definition image_literals : literals := mkLiterals 0 8 13 18.

(** The literals at 0, 8, 13 and 18; "x>0" at 32, "a.c" at 40, "main" at 48
    and an empty string at 60. *)
Definition assert_memory : gmap Z ascii :=
  place 0 marker (place 8 separator_in (place 13 separator_at
    (place 18 line_placeholder
      (place 32 (str "x>0") (place 40 (str "a.c") (place 48 (str "main")
        (place 60 [] ∅))))))).

(** Source string "hi" at 100 and two four byte buffers, at 200 and 300. *)
Definition chain_memory : gmap Z ascii :=
  reserve 300 4 copy_memory.

(** * Proofs *)

(** ** The monad *)

Lemma bind_Ret {A B} (c : M A) (k : A → M B) s a s' :
  c s = Ret a s' → bind c k s = k a s'.
Proof. unfold bind. by intros ->. Qed.

Lemma load_Some p c s : memory s !! p = Some c → load p s = Ret c s.
Proof. unfold load. by intros ->. Qed.

Lemma store_Some p c m out :
  is_Some (m !! p) →
  store p c (mkState m out) = Ret tt (mkState (<[p := c]> m) out).
Proof. unfold store. simpl. by intros [? ->]. Qed.

(** ** C strings in memory *)

Lemma cstring_at_nonzero m p cs : cstring_at m p cs → Forall (λ c, c ≠ zero) cs.
Proof.
  revert p. induction cs as [|c cs IH]; intros p H; [constructor|].
  destruct H as (Hc & _ & Hcs). constructor; eauto.
Qed.

Lemma cstring_at_lookup m p cs (i : nat) :
  cstring_at m p cs → (i < size_with_terminator cs)%nat →
  m !! (p + Z.of_nat i) = with_terminator cs !! i.
Proof.
  unfold size_with_terminator, with_terminator.
  revert p i. induction cs as [|c cs IH]; intros p i H Hi; simpl in *.
  - assert (i = O) as -> by lia. by rewrite Z.add_0_r.
  - destruct H as (_ & Hp & Hcs). destruct i as [|i].
    + by rewrite Z.add_0_r.
    + replace (p + Z.of_nat (S i)) with (p + 1 + Z.of_nat i) by lia.
      apply IH; [done | lia].
Qed.

Lemma cstring_at_of_lookup m p cs :
  Forall (λ c, c ≠ zero) cs →
  (∀ i : nat, (i < size_with_terminator cs)%nat →
     m !! (p + Z.of_nat i) = with_terminator cs !! i) →
  cstring_at m p cs.
Proof.
  unfold size_with_terminator, with_terminator.
  revert p. induction cs as [|c cs IH]; intros p Hnz H; simpl in *.
  - specialize (H O). rewrite Z.add_0_r in H. apply H. lia.
  - inversion Hnz; subst. split; [done|]. split.
    + specialize (H O). rewrite Z.add_0_r in H. apply H. lia.
    + apply IH; [done|]. intros i Hi.
      replace (p + 1 + Z.of_nat i) with (p + Z.of_nat (S i)) by lia.
      apply (H (S i)). lia.
Qed.

Lemma cstring_at_insert_ne m p cs a c :
  cstring_at m p cs → a < p ∨ p + Z.of_nat (length cs) < a →
  cstring_at (<[a := c]> m) p cs.
Proof.
  revert p. induction cs as [|c' cs IH]; intros p H Ha; simpl in *.
  - rewrite lookup_insert_ne; [done | lia].
  - destruct H as (Hc & Hp & Hcs). split; [done|]. split.
    + rewrite lookup_insert_ne; [done | lia].
    + apply IH; [done | lia].
Qed.

Lemma cstring_at_writable m p cs :
  cstring_at m p cs → writable m p (size_with_terminator cs).
Proof.
  unfold size_with_terminator.
  revert p. induction cs as [|c cs IH]; intros p H; simpl in *.
  - split; [by eexists | done].
  - destruct H as (_ & Hp & Hcs). split; [by eexists | by apply IH].
Qed.

Lemma writable_insert m p n a c :
  writable m p n → writable (<[a := c]> m) p n.
Proof.
  revert p. induction n as [|n IH]; intros p H; simpl in *; [done|].
  destruct H as [Hp Hn]. split; [|by apply IH].
  rewrite lookup_insert. case_decide; [by eexists | done].
Qed.

(** ** The stores of a copy *)

Lemma write_bytes_lookup_outside m p bs a :
  a < p ∨ p + Z.of_nat (length bs) ≤ a →
  write_bytes m p bs !! a = m !! a.
Proof.
  revert m p. induction bs as [|b bs IH]; intros m p Ha; simpl in *; [done|].
  rewrite IH by lia. rewrite lookup_insert_ne; [done | lia].
Qed.

Lemma write_bytes_lookup_inside m p bs (i : nat) :
  writable m p (length bs) → (i < length bs)%nat →
  write_bytes m p bs !! (p + Z.of_nat i) = bs !! i.
Proof.
  revert m p i. induction bs as [|b bs IH]; intros m p i Hw Hi; simpl in *;
    [lia|].
  destruct Hw as [Hp Hw]. destruct i as [|i].
  - rewrite Z.add_0_r, write_bytes_lookup_outside by lia.
    by rewrite lookup_insert_eq.
  - replace (p + Z.of_nat (S i)) with (p + 1 + Z.of_nat i) by lia.
    apply IH; [by apply writable_insert | lia].
Qed.

Lemma write_bytes_dom m p bs :
  writable m p (length bs) → dom (write_bytes m p bs) = dom m.
Proof.
  revert m p. induction bs as [|b bs IH]; intros m p Hw; simpl in *; [done|].
  destruct Hw as [Hp Hw]. rewrite IH by by apply writable_insert.
  by apply dom_insert_lookup_L.
Qed.

(** ** The copy loop *)

(** With the terminator [length cs] bytes ahead and a destination that does
    not start inside the source, the loop performs exactly the stores of
    [with_terminator cs] and stops. *)
Lemma strcpy_loop_spec cs m out s1 s2 fuel :
  cstring_at m s2 cs →
  writable m s1 (size_with_terminator cs) →
  copy_safe s1 s2 (size_with_terminator cs) →
  (length cs < fuel)%nat →
  strcpy_loop fuel s1 s2 (mkState m out)
  = Ret tt (mkState (write_bytes m s1 (with_terminator cs)) out).
Proof.
  unfold size_with_terminator, with_terminator, copy_safe.
  revert m s1 s2 fuel.
  induction cs as [|c cs IH]; intros m s1 s2 fuel Hs Hw Hsafe Hfuel;
    (destruct fuel as [|fuel]; [simpl in Hfuel; lia|]);
    simpl in Hs, Hw; destruct Hw as [Hs1 Hw]; simpl strcpy_loop.
  - erewrite bind_Ret by (by apply load_Some).
    erewrite bind_Ret by (by apply store_Some).
    by rewrite decide_True.
  - destruct Hs as (Hc & Hs2 & Hs).
    erewrite bind_Ret by (by apply load_Some).
    erewrite bind_Ret by (by apply store_Some).
    rewrite decide_False by done.
    simpl app. simpl write_bytes. apply IH.
    + apply cstring_at_insert_ne; [done|]. simpl length in Hsafe. lia.
    + by apply writable_insert.
    + simpl length in Hsafe. lia.
    + simpl in Hfuel. lia.
Qed.

(** The loop needs one round per byte, terminator included. *)
Lemma strcpy_loop_short cs m out s1 s2 fuel :
  cstring_at m s2 cs →
  writable m s1 (size_with_terminator cs) →
  copy_safe s1 s2 (size_with_terminator cs) →
  (fuel ≤ length cs)%nat →
  strcpy_loop fuel s1 s2 (mkState m out) = Timeout.
Proof.
  unfold size_with_terminator, copy_safe.
  revert m s1 s2 fuel.
  induction cs as [|c cs IH]; intros m s1 s2 fuel Hs Hw Hsafe Hfuel;
    (destruct fuel as [|fuel]; [done|]); simpl in Hfuel; [lia|].
  simpl in Hs, Hw. destruct Hw as [Hs1 Hw]. destruct Hs as (Hc & Hs2 & Hs).
  simpl strcpy_loop.
  erewrite bind_Ret by (by apply load_Some).
  erewrite bind_Ret by (by apply store_Some).
  rewrite decide_False by done. apply IH.
  - apply cstring_at_insert_ne; [done|]. simpl length in Hsafe. lia.
  - by apply writable_insert.
  - simpl length in Hsafe. lia.
  - lia.
Qed.

Lemma strcpy_spec cs m out s1 s2 fuel :
  cstring_at m s2 cs →
  writable m s1 (size_with_terminator cs) →
  copy_safe s1 s2 (size_with_terminator cs) →
  (length cs < fuel)%nat →
  strcpy fuel s1 s2 (mkState m out)
  = Ret s1 (mkState (write_bytes m s1 (with_terminator cs)) out).
Proof.
  intros Hs Hw Hsafe Hfuel. unfold strcpy.
  by erewrite bind_Ret by (by apply strcpy_loop_spec).
Qed.

Lemma length_with_terminator cs :
  length (with_terminator cs) = size_with_terminator cs.
Proof. unfold with_terminator, size_with_terminator. rewrite length_app. simpl. lia. Qed.

(** Copying a string onto itself rewrites every byte with its own value. *)
Lemma strcpy_loop_self cs m out p fuel :
  cstring_at m p cs → (length cs < fuel)%nat →
  strcpy_loop fuel p p (mkState m out) = Ret tt (mkState m out).
Proof.
  revert m p fuel.
  induction cs as [|c cs IH]; intros m p fuel Hs Hfuel;
    (destruct fuel as [|fuel]; [simpl in Hfuel; lia|]);
    simpl in Hs; simpl strcpy_loop.
  - erewrite bind_Ret by (by apply load_Some).
    erewrite bind_Ret by (apply store_Some; by eexists).
    rewrite decide_True by done. by rewrite insert_id.
  - destruct Hs as (Hc & Hp & Hs).
    erewrite bind_Ret by (by apply load_Some).
    erewrite bind_Ret by (apply store_Some; by eexists).
    rewrite decide_False by done. rewrite insert_id by done.
    apply IH; [done | simpl in Hfuel; lia].
Qed.

(** ** Running the model *)

Example strcpy_runs :
  ∃ m', strcpy 3 200 100 (mkState copy_memory []) = Ret 200 (mkState m' [])
        ∧ m' !! 200 = Some "h"%char ∧ m' !! 201 = Some "i"%char
        ∧ m' !! 202 = Some zero ∧ m' !! 203 = Some "#"%char.
Proof. eexists. split; [vm_compute; reflexivity|]. by vm_compute. Qed.

Example strcpy_needs_three_rounds :
  strcpy 2 200 100 (mkState copy_memory []) = Timeout.
Proof. by vm_compute. Qed.

(** A destination that starts inside the source overwrites the terminator
    before the loop reads it; the loop then runs off the allocated bytes. *)
Example strcpy_into_own_tail :
  strcpy 30 101 100 (mkState copy_memory []) = Undefined.
Proof. by vm_compute. Qed.

(** A destination that starts just before the source is copied correctly, but
    the source bytes it covers are rewritten. *)
Example strcpy_onto_own_head :
  ∃ m', strcpy 3 99 100 (mkState (reserve 99 1 copy_memory) [])
        = Ret 99 (mkState m' [])
        ∧ cstring_at m' 99 (str "hi") ∧ m' !! 100 = Some "i"%char.
Proof.
  eexists. split; [vm_compute; reflexivity|]. vm_compute. by repeat split.
Qed.

Example assert_fail_runs :
  __assert_fail true image_literals 8 32 40 17 48 (mkState assert_memory [])
  = Trap (mkState assert_memory (str "ASSERT x>0 in main at a.c:??")).
Proof. by vm_compute. Qed.

Lemma copy_memory_source : cstring_at copy_memory 100 (str "hi").
Proof. vm_compute. by repeat split. Qed.

Lemma copy_memory_destination : writable copy_memory 200 3.
Proof. vm_compute. repeat split; by eexists. Qed.

(** ** strcpy: the claims *)

(** C1. For a source [cs] followed by its terminator ([n] bytes in all) and a
    destination with at least [n] allocated bytes whose start does not lie
    inside the source, [strcpy] performs the stores of the [n] source bytes
    in order, terminator included; afterwards the first [n] destination bytes
    are the source bytes, and the value returned is the destination pointer
    it was given. *)
Theorem strcpy_copies_source cs (m : gmap Z ascii) out s1 s2 fuel :
  cstring_at m s2 cs →
  writable m s1 (size_with_terminator cs) →
  copy_safe s1 s2 (size_with_terminator cs) →
  (length cs < fuel)%nat →
  ∃ m' : gmap Z ascii,
    strcpy fuel s1 s2 (mkState m out) = Ret s1 (mkState m' out)
    ∧ m' = write_bytes m s1 (with_terminator cs)
    ∧ (∀ i : nat, (i < size_with_terminator cs)%nat →
         m' !! (s1 + Z.of_nat i) = with_terminator cs !! i)
    ∧ cstring_at m' s1 cs.
Proof.
  intros Hs Hw Hsafe Hfuel. eexists. split; [by apply strcpy_spec|].
  split; [done|].
  assert (∀ i : nat, (i < size_with_terminator cs)%nat →
    write_bytes m s1 (with_terminator cs) !! (s1 + Z.of_nat i)
    = with_terminator cs !! i) as Hbytes.
  { intros i Hi. apply write_bytes_lookup_inside;
      rewrite length_with_terminator; done. }
  split; [done|].
  apply cstring_at_of_lookup; [by eapply cstring_at_nonzero | done].
Qed.

Lemma strcpy_copies_source_witness :
  ∃ m' : gmap Z ascii,
    strcpy 3 200 100 (mkState copy_memory []) = Ret 200 (mkState m' [])
    ∧ m' = write_bytes copy_memory 200 (with_terminator (str "hi"))
    ∧ (∀ i : nat, (i < size_with_terminator (str "hi"))%nat →
         m' !! (200 + Z.of_nat i) = with_terminator (str "hi") !! i)
    ∧ cstring_at m' 200 (str "hi").
Proof.
  apply (strcpy_copies_source (str "hi") copy_memory [] 200 100 3).
  - exact copy_memory_source.
  - exact copy_memory_destination.
  - right. unfold size_with_terminator. simpl. lia.
  - simpl. lia.
Defined.

(** C10. Called with the same pointer for destination and source, on a
    terminated sequence, [strcpy] returns that pointer and leaves memory as
    it was. *)
Theorem strcpy_exact_alias cs (m : gmap Z ascii) out p fuel :
  cstring_at m p cs →
  (length cs < fuel)%nat →
  strcpy fuel p p (mkState m out) = Ret p (mkState m out).
Proof.
  intros Hs Hfuel. unfold strcpy.
  by erewrite bind_Ret by (by eapply strcpy_loop_self).
Qed.

Lemma strcpy_exact_alias_witness :
  strcpy 3 100 100 (mkState copy_memory [])
  = Ret 100 (mkState copy_memory []).
Proof.
  apply (strcpy_exact_alias (str "hi") copy_memory [] 100 3).
  - exact copy_memory_source.
  - simpl. lia.
Defined.

(** ** The emission loop *)

Lemma debug_puts_loop_spec cs m out s fuel :
  cstring_at m s cs → (length cs < fuel)%nat →
  debug_puts_loop fuel s (mkState m out) = Ret tt (mkState m (out ++ cs)).
Proof.
  revert out s fuel.
  induction cs as [|c cs IH]; intros out s fuel Hs Hfuel;
    (destruct fuel as [|fuel]; [simpl in Hfuel; lia|]);
    simpl in Hs; simpl debug_puts_loop.
  - erewrite bind_Ret by (by apply load_Some).
    rewrite decide_True by done. by rewrite app_nil_r.
  - destruct Hs as (Hc & Hp & Hs).
    erewrite bind_Ret by (by apply load_Some).
    rewrite decide_False by done.
    erewrite bind_Ret by reflexivity. simpl.
    rewrite (IH (out ++ [c])); [|done|simpl in Hfuel; lia].
    by rewrite <- app_assoc.
Qed.

Lemma debug_puts_loop_short cs m out s fuel :
  cstring_at m s cs → (fuel ≤ length cs)%nat →
  debug_puts_loop fuel s (mkState m out) = Timeout.
Proof.
  revert out s fuel.
  induction cs as [|c cs IH]; intros out s fuel Hs Hfuel;
    (destruct fuel as [|fuel]; [done|]); simpl in Hfuel; [lia|].
  simpl in Hs. destruct Hs as (Hc & Hp & Hs). simpl debug_puts_loop.
  erewrite bind_Ret by (by apply load_Some).
  rewrite decide_False by done.
  erewrite bind_Ret by reflexivity. simpl.
  apply IH; [done | lia].
Qed.

Lemma debug_puts_spec kp cs m out s fuel :
  cstring_at m s cs → (length cs < fuel)%nat →
  debug_puts kp fuel s (mkState m out)
  = Ret tt (mkState m (out ++ emitted kp cs)).
Proof.
  intros Hs Hfuel. destruct kp; simpl.
  - by apply debug_puts_loop_spec.
  - unfold ret. by rewrite app_nil_r.
Qed.

(** ** The assertion handler *)

Lemma bind_never_Ret {A B} (c : M A) (k : A → M B) s :
  (∀ a s1 v s', k a s1 ≠ Ret v s') → ∀ v s', bind c k s ≠ Ret v s'.
Proof. intros Hk v s'. unfold bind. destruct (c s); [apply Hk | done..]. Qed.

Lemma assert_fail_no_Ret kp L fuel expr file line func st v st' :
  __assert_fail kp L fuel expr file line func st ≠ Ret v st'.
Proof.
  unfold __assert_fail. revert v st'.
  do 7 (apply bind_never_Ret; intros _ ?). done.
Qed.

Lemma assert_fail_silent L fuel expr file line func st :
  __assert_fail false L fuel expr file line func st = Trap st.
Proof. reflexivity. Qed.

Lemma emitted_app kp xs ys : emitted kp (xs ++ ys) = emitted kp xs ++ emitted kp ys.
Proof. by destruct kp. Qed.

Lemma assert_fail_spec kp L fuel expr file line func m out E N F :
  literals_loaded m L →
  cstring_at m expr E → cstring_at m func N → cstring_at m file F →
  enough_fuel fuel E N F →
  __assert_fail kp L fuel expr file line func (mkState m out)
  = Trap (mkState m (out ++ emitted kp (diagnostic E N F))).
Proof.
  intros (HA & Hin & Hat & Hline) HE HN HF (Hmarker & HfE & HfN & HfF).
  simpl in Hmarker. unfold __assert_fail.
  erewrite bind_Ret by (by apply debug_puts_spec).
  erewrite bind_Ret by (by apply debug_puts_spec).
  erewrite bind_Ret by (apply debug_puts_spec; [done | simpl; lia]).
  erewrite bind_Ret by (by apply debug_puts_spec).
  erewrite bind_Ret by (apply debug_puts_spec; [done | simpl; lia]).
  erewrite bind_Ret by (by apply debug_puts_spec).
  erewrite bind_Ret by (apply debug_puts_spec; [done | simpl; lia]).
  unfold __builtin_trap, diagnostic.
  by rewrite !emitted_app, <- !app_assoc.
Qed.

Lemma assert_memory_literals : literals_loaded assert_memory image_literals.
Proof. vm_compute. by repeat split. Qed.

Lemma assert_memory_expr : cstring_at assert_memory 32 (str "x>0").
Proof. vm_compute. by repeat split. Qed.

Lemma assert_memory_file : cstring_at assert_memory 40 (str "a.c").
Proof. vm_compute. by repeat split. Qed.

Lemma assert_memory_func : cstring_at assert_memory 48 (str "main").
Proof. vm_compute. by repeat split. Qed.

Lemma assert_memory_empty : cstring_at assert_memory 60 [].
Proof. by vm_compute. Qed.

Lemma fuel_8_enough : enough_fuel 8 (str "x>0") (str "main") (str "a.c").
Proof. unfold enough_fuel. simpl. lia. Qed.

(** ** debug_puts: the claims *)

(** C4. Built without [KernelPrinting], [debug_puts] returns at once for
    every argument and every state, valid string or not: the state is the one
    it was called in, so the host primitive was called zero times and no byte
    was emitted. *)
Theorem debug_puts_disabled fuel s st :
  ∃ st', debug_puts false fuel s st = Ret tt st'
         ∧ putchar_calls st' = putchar_calls st
         ∧ st' = st.
Proof. by exists st. Qed.

(** C5. Built with [KernelPrinting], [debug_puts] on a terminated sequence
    calls the host primitive once per byte before the terminator, in
    sequence order, and returns; none of the bytes passed is the terminator,
    and memory is unchanged. *)
Theorem debug_puts_emits_string cs (m : gmap Z ascii) out s fuel :
  cstring_at m s cs →
  (length cs < fuel)%nat →
  debug_puts true fuel s (mkState m out) = Ret tt (mkState m (out ++ cs))
  ∧ zero ∉ cs.
Proof.
  intros Hs Hfuel. split.
  - by apply (debug_puts_spec true).
  - intros Hin. apply cstring_at_nonzero in Hs.
    rewrite Forall_forall in Hs. by apply (Hs zero).
Qed.

Lemma debug_puts_emits_string_witness :
  debug_puts true 5 48 (mkState assert_memory [])
  = Ret tt (mkState assert_memory ([] ++ str "main"))
  ∧ zero ∉ str "main".
Proof.
  apply (debug_puts_emits_string (str "main") assert_memory [] 48 5).
  - exact assert_memory_func.
  - simpl. lia.
Defined.

(** ** __assert_fail: the claims *)

(** C2. Built with [KernelPrinting], [__assert_fail] called with expression
    text [E], file path [F] and function name [N] passes to the host
    primitive, one character per call and in this order, the marker, [E], the
    first separator, [N], the second separator, [F] and the line placeholder;
    for "x>0", "a.c" and "main" that is "ASSERT x>0 in main at a.c:??". *)
Theorem assert_fail_message L fuel expr file line func
    (m : gmap Z ascii) out E N F :
  literals_loaded m L →
  cstring_at m expr E → cstring_at m func N → cstring_at m file F →
  enough_fuel fuel E N F →
  __assert_fail true L fuel expr file line func (mkState m out)
  = Trap (mkState m
      (out ++ marker ++ E ++ separator_in ++ N ++ separator_at ++ F
           ++ line_placeholder))
  ∧ (E = str "x>0" → F = str "a.c" → N = str "main" →
     __assert_fail true L fuel expr file line func (mkState m out)
     = Trap (mkState m (out ++ str "ASSERT x>0 in main at a.c:??"))).
Proof.
  intros HL HE HN HF Hfuel.
  pose proof (assert_fail_spec true L fuel expr file line func m out E N F
                HL HE HN HF Hfuel) as H.
  split; [exact H|]. intros -> -> ->. exact H.
Qed.

Lemma assert_fail_message_witness :
  __assert_fail true image_literals 8 32 40 17 48 (mkState assert_memory [])
  = Trap (mkState assert_memory ([] ++ str "ASSERT x>0 in main at a.c:??")).
Proof.
  apply (assert_fail_message image_literals 8 32 40 17 48 assert_memory []
           (str "x>0") (str "main") (str "a.c")).
  - exact assert_memory_literals.
  - exact assert_memory_expr.
  - exact assert_memory_func.
  - exact assert_memory_file.
  - exact fuel_8_enough.
  - reflexivity.
  - reflexivity.
  - reflexivity.
Defined.

(** C3. [__assert_fail] never returns to its caller, whatever its arguments,
    the state and the build: no run of it ends in [Ret].  Built without
    [KernelPrinting] it traps in the state it was called in, nothing emitted,
    for every argument.  Given terminated strings it ends in the trap in
    either build. *)
Theorem assert_fail_never_returns kp L fuel expr file line func st :
  (∀ v st', __assert_fail kp L fuel expr file line func st ≠ Ret v st')
  ∧ (kp = false →
     __assert_fail kp L fuel expr file line func st = Trap st)
  ∧ (∀ E N F,
       literals_loaded (memory st) L →
       cstring_at (memory st) expr E → cstring_at (memory st) func N →
       cstring_at (memory st) file F →
       enough_fuel fuel E N F →
       ∃ st', __assert_fail kp L fuel expr file line func st = Trap st').
Proof.
  split; [intros v st'; apply assert_fail_no_Ret|].
  split; [intros ->; apply assert_fail_silent|].
  intros E N F HL HE HN HF Hfuel. destruct st as [m out]. eexists.
  by eapply assert_fail_spec.
Qed.

Lemma assert_fail_never_returns_witness :
  __assert_fail false image_literals 0 32 40 17 48 (mkState assert_memory [])
  = Trap (mkState assert_memory [])
  ∧ ∃ st', __assert_fail true image_literals 8 32 40 17 48
             (mkState assert_memory []) = Trap st'.
Proof.
  split.
  - apply (assert_fail_never_returns false image_literals 0 32 40 17 48
             (mkState assert_memory [])).
    reflexivity.
  - apply (proj2 (proj2 (assert_fail_never_returns true image_literals 8 32 40
             17 48 (mkState assert_memory [])))
             (str "x>0") (str "main") (str "a.c")).
    + exact assert_memory_literals.
    + exact assert_memory_expr.
    + exact assert_memory_func.
    + exact assert_memory_file.
    + exact fuel_8_enough.
Defined.

(** C6. The outcome of [__assert_fail], and with it the characters passed to
    the host primitive, does not depend on the line number: two calls that
    differ only there give the same result, and for every line number the
    message ends with the fixed placeholder. *)
Theorem assert_fail_ignores_line kp L fuel expr file func st line1 line2 :
  __assert_fail kp L fuel expr file line1 func st
  = __assert_fail kp L fuel expr file line2 func st
  ∧ (∀ E N F,
       literals_loaded (memory st) L →
       cstring_at (memory st) expr E → cstring_at (memory st) func N →
       cstring_at (memory st) file F →
       enough_fuel fuel E N F →
       ∀ line,
         __assert_fail kp L fuel expr file line func st
         = Trap (mkState (memory st)
             (putchar_calls st ++
              emitted kp (marker ++ E ++ separator_in ++ N ++ separator_at
                            ++ F ++ line_placeholder)))).
Proof.
  split; [reflexivity|].
  intros E N F HL HE HN HF Hfuel line. destruct st as [m out].
  by apply assert_fail_spec.
Qed.

Lemma assert_fail_ignores_line_witness :
  __assert_fail true image_literals 8 32 40 17 48 (mkState assert_memory [])
  = __assert_fail true image_literals 8 32 40 2024 48
      (mkState assert_memory [])
  ∧ __assert_fail true image_literals 8 32 40 2024 48
      (mkState assert_memory [])
    = Trap (mkState assert_memory (str "ASSERT x>0 in main at a.c:??")).
Proof.
  split.
  - exact (proj1 (assert_fail_ignores_line true image_literals 8 32 40 48
             (mkState assert_memory []) 17 2024)).
  - apply (proj2 (assert_fail_ignores_line true image_literals 8 32 40 48
             (mkState assert_memory []) 17 2024)
             (str "x>0") (str "main") (str "a.c")).
    + exact assert_memory_literals.
    + exact assert_memory_expr.
    + exact assert_memory_func.
    + exact assert_memory_file.
    + exact fuel_8_enough.
Defined.

(** C9. [__assert_fail] checks no length.  With an empty expression string,
    or with an empty function name, it still runs to the trap and never
    returns; the message is the usual one with nothing between the
    neighbours of the empty fragment (and nothing at all when built without
    [KernelPrinting]). *)
Theorem assert_fail_accepts_empty kp L fuel expr file line func
    (m : gmap Z ascii) out F :
  literals_loaded m L →
  cstring_at m file F →
  (∀ N, cstring_at m expr [] → cstring_at m func N →
     enough_fuel fuel [] N F →
     __assert_fail kp L fuel expr file line func (mkState m out)
     = Trap (mkState m
         (out ++ emitted kp (marker ++ separator_in ++ N ++ separator_at
                               ++ F ++ line_placeholder))))
  ∧ (∀ E, cstring_at m expr E → cstring_at m func [] →
     enough_fuel fuel E [] F →
     __assert_fail kp L fuel expr file line func (mkState m out)
     = Trap (mkState m
         (out ++ emitted kp (marker ++ E ++ separator_in ++ separator_at
                               ++ F ++ line_placeholder))))
  ∧ (∀ v st',
       __assert_fail kp L fuel expr file line func (mkState m out)
       ≠ Ret v st').
Proof.
  intros HL HF. split; [|split].
  - intros N HE HN Hfuel.
    by rewrite (assert_fail_spec kp L fuel expr file line func m out [] N F).
  - intros E HE HN Hfuel.
    by rewrite (assert_fail_spec kp L fuel expr file line func m out E [] F).
  - intros v st'. apply assert_fail_no_Ret.
Qed.

Lemma assert_fail_accepts_empty_witness :
  __assert_fail true image_literals 8 60 40 17 48 (mkState assert_memory [])
  = Trap (mkState assert_memory (str "ASSERT  in main at a.c:??"))
  ∧ __assert_fail true image_literals 8 32 40 17 60 (mkState assert_memory [])
    = Trap (mkState assert_memory (str "ASSERT x>0 in  at a.c:??")).
Proof.
  split.
  - apply (proj1 (assert_fail_accepts_empty true image_literals 8 60 40 17 48
             assert_memory [] (str "a.c")
             assert_memory_literals assert_memory_file) (str "main")).
    + exact assert_memory_empty.
    + exact assert_memory_func.
    + unfold enough_fuel. simpl. lia.
  - apply (proj1 (proj2 (assert_fail_accepts_empty true image_literals 8 32 40
             17 60 assert_memory [] (str "a.c")
             assert_memory_literals assert_memory_file)) (str "x>0")).
    + exact assert_memory_expr.
    + exact assert_memory_empty.
    + unfold enough_fuel. simpl. lia.
Defined.

(** ** Termination *)

(** C7, amended.  A terminated source alone does not make [strcpy] return;
    the destination counts too.  With a terminated source of [n] bytes, [n] allocated destination
    bytes and a destination that does not start strictly inside the source,
    [strcpy] returns after one round per source byte, terminator included.
    [debug_puts] on a terminated string returns after one round per byte and
    one for the terminator (no round at all when built without
    [KernelPrinting]).  With less fuel than that the loops are still running.
    [__assert_fail] is the exception: no run of it returns. *)
Theorem loops_stop_at_terminator kp cs ds (m : gmap Z ascii) out s1 s2 s :
  cstring_at m s2 cs →
  writable m s1 (size_with_terminator cs) →
  copy_safe s1 s2 (size_with_terminator cs) →
  cstring_at m s ds →
  (∀ fuel, (size_with_terminator cs ≤ fuel)%nat →
     ∃ st', strcpy fuel s1 s2 (mkState m out) = Ret s1 st')
  ∧ (∀ fuel, (fuel < size_with_terminator cs)%nat →
     strcpy fuel s1 s2 (mkState m out) = Timeout)
  ∧ (∀ fuel, (size_with_terminator ds ≤ fuel)%nat →
     ∃ st', debug_puts kp fuel s (mkState m out) = Ret tt st')
  ∧ (∀ fuel, (fuel < size_with_terminator ds)%nat →
     debug_puts true fuel s (mkState m out) = Timeout)
  ∧ (∀ L fuel expr file line func st v st',
     __assert_fail kp L fuel expr file line func st ≠ Ret v st').
Proof.
  intros Hs Hw Hsafe Hd. unfold size_with_terminator in *.
  split; [|split; [|split; [|split]]].
  - intros fuel Hfuel. eexists. by apply strcpy_spec.
  - intros fuel Hfuel. unfold strcpy, bind.
    by rewrite (strcpy_loop_short cs) by (done || lia).
  - intros fuel Hfuel. eexists. apply debug_puts_spec; [done | lia].
  - intros fuel Hfuel. simpl. apply (debug_puts_loop_short ds); [done | lia].
  - intros. apply assert_fail_no_Ret.
Qed.

Lemma loops_stop_at_terminator_witness :
  (∃ st', strcpy 3 200 100 (mkState copy_memory []) = Ret 200 st')
  ∧ (∃ st', debug_puts true 3 100 (mkState copy_memory []) = Ret tt st').
Proof.
  assert (copy_safe 200 100 (size_with_terminator (str "hi"))) as Hsafe.
  { right. unfold size_with_terminator. simpl. lia. }
  destruct (loops_stop_at_terminator true (str "hi") (str "hi") copy_memory
              [] 200 100 100 copy_memory_source copy_memory_destination Hsafe
              copy_memory_source) as (Hcopy & _ & Hputs & _).
  split; [apply Hcopy | apply Hputs]; unfold size_with_terminator; simpl; lia.
Defined.

(** * Further properties of the three functions *)

(** ** Reading a run backwards *)

Lemma bind_Ret_inv {A B} (c : M A) (k : A → M B) s b s' :
  bind c k s = Ret b s' → ∃ a s1, c s = Ret a s1 ∧ k a s1 = Ret b s'.
Proof. unfold bind. destruct (c s) as [a s1| | |]; [by eauto | done..]. Qed.

Lemma bind_Trap_inv {A B} (c : M A) (k : A → M B) s s' :
  bind c k s = Trap s' →
  c s = Trap s' ∨ ∃ a s1, c s = Ret a s1 ∧ k a s1 = Trap s'.
Proof.
  unfold bind. destruct (c s) as [a s1|s1| |]; intros H.
  - right. by eauto.
  - left. by inversion H.
  - done.
  - done.
Qed.

Lemma load_Ret_inv p s c s' :
  load p s = Ret c s' → s' = s ∧ memory s !! p = Some c.
Proof.
  unfold load. destruct (memory s !! p); [|done]. intros H. by inversion H.
Qed.

Lemma store_Ret_inv p c s u s' :
  store p c s = Ret u s' →
  is_Some (memory s !! p) ∧
  s' = mkState (<[p := c]> (memory s)) (putchar_calls s).
Proof.
  unfold store. destruct (memory s !! p) eqn:E; [|done]. intros H.
  inversion H. split; [by eexists | done].
Qed.

(** One round of the copy loop that goes on to the next. *)
Lemma strcpy_loop_step fuel s1 s2 st st' :
  strcpy_loop (S fuel) s1 s2 st = Ret tt st' →
  ∃ c, memory st !! s2 = Some c ∧ is_Some (memory st !! s1) ∧
    let st1 := mkState (<[s1 := c]> (memory st)) (putchar_calls st) in
    (c = zero ∧ st' = st1) ∨
    (c ≠ zero ∧ strcpy_loop fuel (s1 + 1) (s2 + 1) st1 = Ret tt st').
Proof.
  simpl strcpy_loop. intros H.
  apply bind_Ret_inv in H as (c & sa & Hload & H).
  apply load_Ret_inv in Hload as [-> Hc].
  apply bind_Ret_inv in H as (u & sb & Hstore & H).
  apply store_Ret_inv in Hstore as [Hs1 ->].
  exists c. split; [done|]. split; [done|]. simpl.
  destruct (decide (c = zero)) as [Hz|Hz].
  - left. unfold ret in H. by inversion H.
  - by right.
Qed.

(** Whatever the arguments, a run of the copy loop that returns has called
    the host primitive never, has allocated nothing, and has left a
    terminated string at the destination, writing nowhere else. *)
Lemma strcpy_loop_returns fuel s1 s2 st st' :
  strcpy_loop fuel s1 s2 st = Ret tt st' →
  putchar_calls st' = putchar_calls st
  ∧ dom (memory st') = dom (memory st)
  ∧ ∃ ds, (length ds < fuel)%nat
      ∧ cstring_at (memory st') s1 ds
      ∧ ∀ a, a < s1 ∨ s1 + Z.of_nat (length ds) < a →
          memory st' !! a = memory st !! a.
Proof.
  revert s1 s2 st. induction fuel as [|fuel IH]; intros s1 s2 st H; [done|].
  apply strcpy_loop_step in H as (c & Hc & Hs1 & [[-> ->]|[Hnz H]]).
  - simpl. split; [done|]. split; [by apply dom_insert_lookup_L|].
    exists []. simpl. split; [lia|]. split; [by rewrite lookup_insert_eq|].
    intros a Ha. rewrite lookup_insert_ne; [done | lia].
  - apply IH in H as (Hout & Hdom & ds & Hlen & Hds & Hframe). simpl in *.
    split; [done|]. split; [by rewrite Hdom, dom_insert_lookup_L|].
    exists (c :: ds). simpl. split; [lia|]. split.
    + split; [done|]. split; [|done].
      rewrite Hframe by lia. by rewrite lookup_insert_eq.
    + intros a Ha. rewrite Hframe by lia.
      rewrite lookup_insert_ne; [done | lia].
Qed.

(** X1. Every call of [strcpy] that returns, valid or not, returns its first
    argument, has made no call to the host primitive and has allocated or
    freed nothing; the destination then holds a terminated string, and no
    byte outside that string and its terminator was written. *)
Theorem strcpy_returns_terminated_destination fuel s1 s2 st r st' :
  strcpy fuel s1 s2 st = Ret r st' →
  r = s1
  ∧ putchar_calls st' = putchar_calls st
  ∧ dom (memory st') = dom (memory st)
  ∧ ∃ ds, (length ds < fuel)%nat
      ∧ cstring_at (memory st') s1 ds
      ∧ ∀ a, a < s1 ∨ s1 + Z.of_nat (length ds) < a →
          memory st' !! a = memory st !! a.
Proof.
  unfold strcpy. intros H.
  apply bind_Ret_inv in H as ([] & s1' & Hloop & H).
  unfold ret in H. inversion H; subst. split; [done|].
  by apply strcpy_loop_returns in Hloop.
Qed.

Lemma strcpy_returns_terminated_destination_witness :
  99 = 99
  ∧ putchar_calls (mkState (write_bytes (reserve 99 1 copy_memory) 99
                              (with_terminator (str "hi"))) [])
    = putchar_calls (mkState (reserve 99 1 copy_memory) [])
  ∧ dom (memory (mkState (write_bytes (reserve 99 1 copy_memory) 99
                            (with_terminator (str "hi"))) []))
    = dom (memory (mkState (reserve 99 1 copy_memory) []))
  ∧ ∃ ds, (length ds < 3)%nat
      ∧ cstring_at (memory (mkState (write_bytes (reserve 99 1 copy_memory) 99
                              (with_terminator (str "hi"))) [])) 99 ds
      ∧ ∀ a, a < 99 ∨ 99 + Z.of_nat (length ds) < a →
          memory (mkState (write_bytes (reserve 99 1 copy_memory) 99
                             (with_terminator (str "hi"))) []) !! a
          = memory (mkState (reserve 99 1 copy_memory) []) !! a.
Proof.
  apply (strcpy_returns_terminated_destination 3 99 100
           (mkState (reserve 99 1 copy_memory) [])).
  by vm_compute.
Defined.

(** ** Calls of strcpy that cannot return *)

Lemma cstring_at_byte_nonzero m p cs a c :
  cstring_at m p cs → p ≤ a < p + Z.of_nat (length cs) →
  m !! a = Some c → c ≠ zero.
Proof.
  revert p. induction cs as [|c' cs IH]; intros p H Ha Hc; simpl in *; [lia|].
  destruct H as (Hnz & Hp & Hcs).
  destruct (decide (a = p)) as [->|Hne]; [congruence|].
  apply (IH (p + 1)); [done | lia | done].
Qed.

(** While every byte between the read pointer and the write pointer is
    non-zero, the loop only ever reads non-zero bytes. *)
Lemma strcpy_loop_window fuel p q (m : gmap Z ascii) out st' :
  p < q →
  (∀ a c, p ≤ a < q → m !! a = Some c → c ≠ zero) →
  strcpy_loop fuel q p (mkState m out) ≠ Ret tt st'.
Proof.
  revert p q m. induction fuel as [|fuel IH]; intros p q m Hpq Hwin H; [done|].
  apply strcpy_loop_step in H as (c & Hc & Hq & [[Hz _]|[Hnz H]]);
    simpl in *.
  - apply (Hwin p c); [lia | done | done].
  - revert H. apply IH; [lia|]. intros a c' Ha Hc'.
    destruct (decide (a = q)) as [->|Hne].
    + rewrite lookup_insert_eq in Hc'. congruence.
    + rewrite lookup_insert_ne in Hc' by done. apply (Hwin a c'); [lia|done].
Qed.

Lemma strcpy_loop_overflow cs (k : nat) (m : gmap Z ascii) out s1 s2 fuel st' :
  cstring_at m s2 cs →
  copy_safe s1 s2 (size_with_terminator cs) →
  (k ≤ length cs)%nat →
  m !! (s1 + Z.of_nat k) = None →
  strcpy_loop fuel s1 s2 (mkState m out) ≠ Ret tt st'.
Proof.
  unfold copy_safe, size_with_terminator.
  revert k m s1 s2 fuel.
  induction cs as [|c0 cs IH]; intros k m s1 s2 fuel Hs Hsafe Hk Hnone H;
    (destruct fuel as [|fuel]; [done|]);
    apply strcpy_loop_step in H as (c & Hc & Hs1 & Hcase); simpl in *.
  - assert (k = O) as -> by lia. rewrite Z.add_0_r in Hnone.
    rewrite Hnone in Hs1. by destruct Hs1.
  - destruct Hs as (Hnz & Hs2 & Hs).
    assert (c = c0) as -> by congruence.
    destruct Hcase as [[Hz _]|[_ H]]; [done|].
    destruct k as [|k].
    { rewrite Z.add_0_r in Hnone. rewrite Hnone in Hs1. by destruct Hs1. }
    revert H. apply (IH k).
    + apply cstring_at_insert_ne; [done | lia].
    + lia.
    + lia.
    + rewrite lookup_insert_ne by lia. rewrite <- Hnone. f_equal. lia.
Qed.

(** X2. A destination that starts inside the source, after its first byte
    and up to its terminator, makes the copy overwrite the terminator before
    reading it: no such call of [strcpy] returns, whatever the fuel. *)
Theorem strcpy_inside_source_never_returns cs (m : gmap Z ascii) out s1 s2
    fuel r st' :
  cstring_at m s2 cs →
  s2 < s1 ≤ s2 + Z.of_nat (length cs) →
  strcpy fuel s1 s2 (mkState m out) ≠ Ret r st'.
Proof.
  intros Hs Hin H. unfold strcpy in H.
  apply bind_Ret_inv in H as ([] & sa & Hloop & _).
  revert Hloop. apply strcpy_loop_window; [lia|].
  intros a c Ha. apply (cstring_at_byte_nonzero m s2 cs); [done | lia].
Qed.

Lemma strcpy_inside_source_never_returns_witness :
  strcpy 30 101 100 (mkState copy_memory [])
  ≠ Ret 101 (mkState copy_memory []).
Proof.
  apply (strcpy_inside_source_never_returns (str "hi") copy_memory [] 101 100
           30 101 (mkState copy_memory [])).
  - exact copy_memory_source.
  - simpl. lia.
Defined.

(** X3. If one of the [n] bytes the copy needs at the destination is not
    allocated, [strcpy] does not return, whatever the fuel and however the
    buffers lie: the store that falls on the missing byte is undefined, and
    the loop cannot stop before it. *)
Theorem strcpy_short_destination_never_returns cs (k : nat)
    (m : gmap Z ascii) out s1 s2 fuel r st' :
  cstring_at m s2 cs →
  (k < size_with_terminator cs)%nat →
  m !! (s1 + Z.of_nat k) = None →
  strcpy fuel s1 s2 (mkState m out) ≠ Ret r st'.
Proof.
  unfold size_with_terminator. intros Hs Hk Hnone H. unfold strcpy in H.
  apply bind_Ret_inv in H as ([] & sa & Hloop & _). revert Hloop.
  destruct (decide (s2 < s1 ≤ s2 + Z.of_nat (length cs))) as [Hin|Hout].
  - apply strcpy_loop_window; [lia|].
    intros a c Ha. apply (cstring_at_byte_nonzero m s2 cs); [done | lia].
  - apply (strcpy_loop_overflow cs k); [done| |lia|done].
    unfold copy_safe, size_with_terminator. lia.
Qed.

Lemma strcpy_short_destination_never_returns_witness :
  strcpy 30 202 100 (mkState copy_memory [])
  ≠ Ret 202 (mkState copy_memory []).
Proof.
  apply (strcpy_short_destination_never_returns (str "hi") 2 copy_memory []
           202 100 30 202 (mkState copy_memory [])).
  - exact copy_memory_source.
  - unfold size_with_terminator. simpl. lia.
  - by vm_compute.
Defined.

Lemma strcpy_loop_unterminated fuel s1 s2 (m : gmap Z ascii) out st' :
  (∀ a c, s2 ≤ a → m !! a = Some c → c ≠ zero) →
  strcpy_loop fuel s1 s2 (mkState m out) ≠ Ret tt st'.
Proof.
  revert s1 s2 m.
  induction fuel as [|fuel IH]; intros s1 s2 m Hnz H; [done|].
  apply strcpy_loop_step in H as (c & Hc & Hs1 & [[Hz _]|[Hc0 H]]);
    simpl in *.
  - by apply (Hnz s2 c).
  - revert H. apply IH. intros a c' Ha Hc'.
    destruct (decide (a = s1)) as [->|Hne].
    + rewrite lookup_insert_eq in Hc'. congruence.
    + rewrite lookup_insert_ne in Hc' by done. apply (Hnz a c'); [lia|done].
Qed.

(** X4. A source with no terminator (every allocated byte from the source
    pointer on is non-zero) is never copied to completion: [strcpy] does not
    return, wherever the destination is. *)
Theorem strcpy_unterminated_never_returns (m : gmap Z ascii) out s1 s2
    fuel r st' :
  (∀ a c, s2 ≤ a → m !! a = Some c → c ≠ zero) →
  strcpy fuel s1 s2 (mkState m out) ≠ Ret r st'.
Proof.
  intros Hnz H. unfold strcpy in H.
  apply bind_Ret_inv in H as ([] & sa & Hloop & _).
  by apply strcpy_loop_unterminated in Hloop.
Qed.

Lemma copy_memory_tail_nonzero a c :
  200 ≤ a → copy_memory !! a = Some c → c ≠ zero.
Proof.
  intros Ha. destruct (decide (a < 204)) as [Hlt|Hge].
  - assert (a = 200 ∨ a = 201 ∨ a = 202 ∨ a = 203) as Hcases by lia.
    destruct Hcases as [-> | [-> | [-> | ->]]]; vm_compute; intros H;
      inversion H; done.
  - unfold copy_memory, reserve, place.
    rewrite !write_bytes_lookup_outside by (simpl; lia).
    by rewrite lookup_empty.
Qed.

Lemma strcpy_unterminated_never_returns_witness :
  strcpy 30 100 200 (mkState copy_memory [])
  ≠ Ret 100 (mkState copy_memory []).
Proof.
  apply (strcpy_unterminated_never_returns copy_memory [] 100 200 30 100
           (mkState copy_memory [])).
  exact copy_memory_tail_nonzero.
Defined.

(** ** What the preconditions of strcpy are for *)

(** C7 as first stated, with a terminated source as the only precondition,
    fails.  "hi" at 100 is a terminated source; with the destination at 101,
    inside the source, or at 202, where only two bytes are allocated, no run
    of [strcpy] returns, and both run into undefined behaviour. *)
Lemma strcpy_terminated_source_may_not_return :
  cstring_at copy_memory 100 (str "hi")
  ∧ (∀ fuel r st', strcpy fuel 101 100 (mkState copy_memory []) ≠ Ret r st')
  ∧ strcpy 8 101 100 (mkState copy_memory []) = Undefined
  ∧ (∀ fuel r st', strcpy fuel 202 100 (mkState copy_memory []) ≠ Ret r st')
  ∧ strcpy 8 202 100 (mkState copy_memory []) = Undefined.
Proof.
  split; [exact copy_memory_source|].
  split; [|split; [by vm_compute|split; [|by vm_compute]]].
  - intros fuel r st' H. unfold strcpy in H.
    apply bind_Ret_inv in H as ([] & sa & Hloop & _). revert Hloop.
    apply strcpy_loop_window; [lia|]. intros a c Ha.
    apply (cstring_at_byte_nonzero copy_memory 100 (str "hi"));
      [exact copy_memory_source | simpl; lia].
  - intros fuel r st' H. unfold strcpy in H.
    apply bind_Ret_inv in H as ([] & sa & Hloop & _). revert Hloop.
    apply (strcpy_loop_overflow (str "hi") 2).
    + exact copy_memory_source.
    + right. unfold size_with_terminator. simpl. lia.
    + simpl. lia.
    + by vm_compute.
Qed.

(** C8 as first stated, with the source unchanged after every valid call,
    fails.  With "hi" at 100 and the destination at 99, three allocated bytes
    that start before the source, the call is valid and returns 99 with "hi"
    at 99; but the byte at 100, the first of the source, was 'h' and is now
    'i', and the source pointer no longer holds "hi". *)
Lemma strcpy_valid_call_rewrites_source :
  cstring_at (reserve 99 1 copy_memory) 100 (str "hi")
  ∧ writable (reserve 99 1 copy_memory) 99 (size_with_terminator (str "hi"))
  ∧ copy_safe 99 100 (size_with_terminator (str "hi"))
  ∧ ∃ m' : gmap Z ascii,
      strcpy 3 99 100 (mkState (reserve 99 1 copy_memory) [])
      = Ret 99 (mkState m' [])
      ∧ cstring_at m' 99 (str "hi")
      ∧ reserve 99 1 copy_memory !! 100 = Some "h"%char
      ∧ m' !! 100 = Some "i"%char
      ∧ ¬ cstring_at m' 100 (str "hi").
Proof.
  split; [vm_compute; by repeat split|].
  split; [vm_compute; repeat split; by eexists|].
  split; [left; lia|].
  eexists. split; [vm_compute; reflexivity|].
  split; [vm_compute; by repeat split|].
  split; [by vm_compute|]. split; [by vm_compute|].
  vm_compute. intros (_ & H & _). by inversion H.
Qed.

(** C8, amended.  In a valid call (terminated source of [n] bytes, [n]
    allocated destination bytes, destination not starting strictly inside the
    source) [strcpy] writes the [n] destination bytes and nothing else: every
    address that is not one of them keeps its content (the destination bytes
    past the [n]th among them), the set of allocated addresses is the same,
    and no character went to the host primitive.  The source keeps its
    sequence when it shares no byte with the [n] destination bytes, and when
    source and destination are the same pointer; when the destination starts
    before the source and reaches into it, the source does not keep it. *)
Theorem strcpy_frame cs (m : gmap Z ascii) out s1 s2 fuel :
  cstring_at m s2 cs →
  writable m s1 (size_with_terminator cs) →
  copy_safe s1 s2 (size_with_terminator cs) →
  (length cs < fuel)%nat →
  ∃ m' : gmap Z ascii,
    strcpy fuel s1 s2 (mkState m out) = Ret s1 (mkState m' out)
    ∧ (∀ a, a < s1 ∨ s1 + Z.of_nat (size_with_terminator cs) ≤ a →
         m' !! a = m !! a)
    ∧ dom m' = dom m
    ∧ (disjoint_buffers s1 s2 (size_with_terminator cs) ∨ s1 = s2 →
       cstring_at m' s2 cs
       ∧ ∀ i : nat, (i < size_with_terminator cs)%nat →
           m' !! (s2 + Z.of_nat i) = m !! (s2 + Z.of_nat i))
    ∧ (s1 < s2 ≤ s1 + Z.of_nat (length cs) → ¬ cstring_at m' s2 cs).
Proof.
  intros Hs Hw Hsafe Hfuel. eexists. split; [by apply strcpy_spec|].
  pose proof (cstring_at_nonzero _ _ _ Hs) as Hnz.
  assert (∀ a, a < s1 ∨ s1 + Z.of_nat (size_with_terminator cs) ≤ a →
    write_bytes m s1 (with_terminator cs) !! a = m !! a) as Hframe.
  { intros a Ha. apply write_bytes_lookup_outside.
    by rewrite length_with_terminator. }
  assert (∀ i : nat, (i < size_with_terminator cs)%nat →
    write_bytes m s1 (with_terminator cs) !! (s1 + Z.of_nat i)
    = with_terminator cs !! i) as Hdest.
  { intros i Hi. apply write_bytes_lookup_inside;
      by rewrite length_with_terminator. }
  split; [done|]. split.
  { apply write_bytes_dom. by rewrite length_with_terminator. }
  split.
  - intros Hcase.
    assert (∀ i : nat, (i < size_with_terminator cs)%nat →
      write_bytes m s1 (with_terminator cs) !! (s2 + Z.of_nat i)
      = m !! (s2 + Z.of_nat i)) as Hsrc.
    { intros i Hi. destruct Hcase as [Hdisj| ->].
      - apply Hframe. unfold disjoint_buffers in Hdisj. lia.
      - rewrite Hdest by done. symmetry. by apply cstring_at_lookup. }
    split; [|done].
    apply cstring_at_of_lookup; [done|].
    intros i Hi. rewrite Hsrc by done. by apply cstring_at_lookup.
  - intros Hin Hsrc.
    assert (s1 + Z.of_nat (length cs) = s2 + Z.of_nat (length cs)
              - (s2 - s1)) as Haddr by lia.
    specialize (Hdest (length cs)). unfold with_terminator in Hdest.
    rewrite list_lookup_middle in Hdest by done.
    eapply (cstring_at_byte_nonzero _ s2 cs (s1 + Z.of_nat (length cs)) zero);
      [exact Hsrc | lia | | done].
    apply Hdest. unfold size_with_terminator. lia.
Qed.

Lemma strcpy_frame_witness :
  ∃ m' : gmap Z ascii,
    strcpy 3 200 100 (mkState copy_memory []) = Ret 200 (mkState m' [])
    ∧ (∀ a, a < 200 ∨ 200 + Z.of_nat (size_with_terminator (str "hi")) ≤ a →
         m' !! a = copy_memory !! a)
    ∧ dom m' = dom copy_memory
    ∧ (disjoint_buffers 200 100 (size_with_terminator (str "hi")) ∨ 200 = 100 →
       cstring_at m' 100 (str "hi")
       ∧ ∀ i : nat, (i < size_with_terminator (str "hi"))%nat →
           m' !! (100 + Z.of_nat i) = copy_memory !! (100 + Z.of_nat i))
    ∧ (200 < 100 ≤ 200 + Z.of_nat (length (str "hi")) →
       ¬ cstring_at m' 100 (str "hi")).
Proof.
  apply (strcpy_frame (str "hi") copy_memory [] 200 100 3).
  - exact copy_memory_source.
  - exact copy_memory_destination.
  - right. unfold size_with_terminator. simpl. lia.
  - simpl. lia.
Defined.

(** ** Reading a run of debug_puts backwards *)

Lemma debug_puts_loop_step fuel s st st' :
  debug_puts_loop (S fuel) s st = Ret tt st' →
  ∃ c, memory st !! s = Some c ∧
    ((c = zero ∧ st' = st) ∨
     (c ≠ zero ∧
      debug_puts_loop fuel (s + 1)
        (mkState (memory st) (putchar_calls st ++ [c])) = Ret tt st')).
Proof.
  simpl debug_puts_loop. intros H.
  apply bind_Ret_inv in H as (c & sa & Hload & H).
  apply load_Ret_inv in Hload as [-> Hc].
  exists c. split; [done|].
  destruct (decide (c = zero)) as [Hz|Hz].
  - left. unfold ret in H. by inversion H.
  - right. split; [done|].
    apply bind_Ret_inv in H as (u & sb & Hput & H).
    unfold seL4_DebugPutChar in Hput. by inversion Hput; subst.
Qed.

Lemma debug_puts_loop_returns fuel s (m : gmap Z ascii) out st' :
  debug_puts_loop fuel s (mkState m out) = Ret tt st' →
  ∃ ds, (length ds < fuel)%nat ∧ cstring_at m s ds
        ∧ st' = mkState m (out ++ ds).
Proof.
  revert s out. induction fuel as [|fuel IH]; intros s out H; [done|].
  apply debug_puts_loop_step in H as (c & Hc & [[-> ->]|[Hnz H]]);
    simpl in *.
  - exists []. simpl. split; [lia|]. split; [done|]. by rewrite app_nil_r.
  - apply IH in H as (ds & Hlen & Hds & ->).
    exists (c :: ds). simpl. split; [lia|]. split; [done|].
    by rewrite <- app_assoc.
Qed.

Lemma debug_puts_loop_no_Trap fuel s st st' :
  debug_puts_loop fuel s st ≠ Trap st'.
Proof.
  revert s st. induction fuel as [|fuel IH]; intros s st H; [done|].
  simpl in H. apply bind_Trap_inv in H as [H|(c & sa & Hload & H)].
  - unfold load in H. by destruct (memory st !! s).
  - destruct (decide (c = zero)); [done|].
    apply bind_Trap_inv in H as [H|(u & sb & _ & H)]; [done|].
    by apply IH in H.
Qed.

Lemma debug_puts_returns kp fuel s (m : gmap Z ascii) out u st' :
  debug_puts kp fuel s (mkState m out) = Ret u st' →
  ∃ ds, st' = mkState m (out ++ emitted kp ds)
        ∧ (kp = true → cstring_at m s ds ∧ (length ds < fuel)%nat).
Proof.
  destruct kp; simpl; intros H.
  - destruct u. apply debug_puts_loop_returns in H as (ds & Hlen & Hds & ->).
    by exists ds.
  - exists []. unfold ret in H. inversion H. by rewrite app_nil_r.
Qed.

Lemma debug_puts_no_Trap kp fuel s st st' :
  debug_puts kp fuel s st ≠ Trap st'.
Proof. destruct kp; [apply debug_puts_loop_no_Trap | done]. Qed.

(** X5. Every call of [debug_puts] that returns, in a build with
    [KernelPrinting], found a terminated string at its argument and passed
    exactly its bytes to the host primitive, after the calls made before;
    memory is as it was. *)
Theorem debug_puts_returns_emitted_string fuel s st u st' :
  debug_puts true fuel s st = Ret u st' →
  memory st' = memory st
  ∧ ∃ ds, cstring_at (memory st) s ds
        ∧ (length ds < fuel)%nat
        ∧ putchar_calls st' = putchar_calls st ++ ds
        ∧ zero ∉ ds.
Proof.
  destruct st as [m out]. intros H.
  apply debug_puts_returns in H as (ds & -> & Hds). simpl.
  destruct (Hds eq_refl) as [Hs Hlen]. split; [done|].
  exists ds. split; [done|]. split; [done|]. split; [done|].
  intros Hin. apply cstring_at_nonzero in Hs.
  rewrite Forall_forall in Hs. by apply (Hs zero).
Qed.

Lemma debug_puts_returns_emitted_string_witness :
  memory (mkState assert_memory (str "main")) = memory (mkState assert_memory [])
  ∧ ∃ ds, cstring_at (memory (mkState assert_memory [])) 48 ds
        ∧ (length ds < 5)%nat
        ∧ putchar_calls (mkState assert_memory (str "main"))
          = putchar_calls (mkState assert_memory []) ++ ds
        ∧ zero ∉ ds.
Proof.
  apply (debug_puts_returns_emitted_string 5 48 (mkState assert_memory []) tt
           (mkState assert_memory (str "main"))).
  by vm_compute.
Defined.

(** X6. Without a terminator (every allocated byte from the argument on is
    non-zero) [debug_puts] built with [KernelPrinting] does not return,
    whatever the fuel. *)
Theorem debug_puts_unterminated_never_returns (m : gmap Z ascii) out s
    fuel u st' :
  (∀ a c, s ≤ a → m !! a = Some c → c ≠ zero) →
  debug_puts true fuel s (mkState m out) ≠ Ret u st'.
Proof.
  intros Hnz H. apply debug_puts_returns in H as (ds & _ & Hds).
  destruct (Hds eq_refl) as [Hs _].
  apply cstring_at_lookup with (i := length ds) in Hs;
    [|unfold size_with_terminator; lia].
  unfold with_terminator in Hs. rewrite list_lookup_middle in Hs by done.
  by apply (Hnz (s + Z.of_nat (length ds)) zero); [lia|done|].
Qed.

Lemma debug_puts_unterminated_never_returns_witness :
  debug_puts true 30 200 (mkState copy_memory [])
  ≠ Ret tt (mkState copy_memory []).
Proof.
  apply (debug_puts_unterminated_never_returns copy_memory [] 200 30 tt
           (mkState copy_memory [])).
  exact copy_memory_tail_nonzero.
Defined.

(** ** Reading a run of __assert_fail backwards *)

Lemma cstring_at_functional m p cs ds :
  cstring_at m p cs → cstring_at m p ds → cs = ds.
Proof.
  revert p ds. induction cs as [|c cs IH]; intros p [|d ds] Hc Hd;
    simpl in *.
  - done.
  - destruct Hd as (Hnz & Hp & _). congruence.
  - destruct Hc as (Hnz & Hp & _). congruence.
  - destruct Hc as (_ & Hpc & Hc). destruct Hd as (_ & Hpd & Hd).
    f_equal; [congruence | by eapply IH].
Qed.

Lemma assert_fail_traps kp L fuel expr file line func (m : gmap Z ascii)
    out st' :
  __assert_fail kp L fuel expr file line func (mkState m out) = Trap st' →
  ∃ A E I N T F P,
    st' = mkState m (out ++ emitted kp (A ++ E ++ I ++ N ++ T ++ F ++ P))
    ∧ (kp = true →
       cstring_at m (lit_ASSERT L) A ∧ cstring_at m expr E ∧
       cstring_at m (lit_in L) I ∧ cstring_at m func N ∧
       cstring_at m (lit_at L) T ∧ cstring_at m file F ∧
       cstring_at m (lit_line L) P).
Proof.
  unfold __assert_fail. intros H.
  apply bind_Trap_inv in H as [H|(u1 & sa & Hd & H)];
    [by apply debug_puts_no_Trap in H|].
  apply debug_puts_returns in Hd as (A & -> & HA).
  apply bind_Trap_inv in H as [H|(u2 & sa & Hd & H)];
    [by apply debug_puts_no_Trap in H|].
  apply debug_puts_returns in Hd as (E & -> & HE).
  apply bind_Trap_inv in H as [H|(u3 & sa & Hd & H)];
    [by apply debug_puts_no_Trap in H|].
  apply debug_puts_returns in Hd as (I & -> & HI).
  apply bind_Trap_inv in H as [H|(u4 & sa & Hd & H)];
    [by apply debug_puts_no_Trap in H|].
  apply debug_puts_returns in Hd as (N & -> & HN).
  apply bind_Trap_inv in H as [H|(u5 & sa & Hd & H)];
    [by apply debug_puts_no_Trap in H|].
  apply debug_puts_returns in Hd as (T & -> & HT).
  apply bind_Trap_inv in H as [H|(u6 & sa & Hd & H)];
    [by apply debug_puts_no_Trap in H|].
  apply debug_puts_returns in Hd as (F & -> & HF).
  apply bind_Trap_inv in H as [H|(u7 & sa & Hd & H)];
    [by apply debug_puts_no_Trap in H|].
  apply debug_puts_returns in Hd as (P & -> & HP).
  unfold __builtin_trap in H. inversion H; subst.
  exists A, E, I, N, T, F, P. split.
  - by rewrite !emitted_app, <- !app_assoc.
  - intros Hkp. repeat split;
      first [apply HA | apply HE | apply HI | apply HN | apply HT
            | apply HF | apply HP]; done.
Qed.

(** X7. Every run of [__assert_fail] that reaches the trap, whatever its
    arguments and the build, leaves memory as it was, and what it passed to
    the host primitive comes after the earlier calls and holds no zero byte
    (and nothing at all without [KernelPrinting]). *)
Theorem assert_fail_trap_keeps_memory kp L fuel expr file line func st st' :
  __assert_fail kp L fuel expr file line func st = Trap st' →
  memory st' = memory st
  ∧ ∃ tail, putchar_calls st' = putchar_calls st ++ tail
          ∧ (zero ∉ tail)
          ∧ (kp = false → tail = []).
Proof.
  destruct st as [m out]. intros H.
  apply assert_fail_traps in H as (A & E & I & N & T & F & P & -> & Hs).
  simpl. split; [done|]. eexists. split; [done|]. split.
  - destruct kp; simpl; [|by apply not_elem_of_nil].
    destruct (Hs eq_refl) as (HA & HE & HI & HN & HT & HF & HP).
    rewrite !elem_of_app.
    assert (∀ p cs, cstring_at m p cs → zero ∉ cs) as Hnz.
    { intros p cs Hc Hin. apply cstring_at_nonzero in Hc.
      rewrite Forall_forall in Hc. by apply (Hc zero). }
    intros [?|[?|[?|[?|[?|[?|?]]]]]];
      [by apply (Hnz _ _ HA) | by apply (Hnz _ _ HE) | by apply (Hnz _ _ HI)
      | by apply (Hnz _ _ HN) | by apply (Hnz _ _ HT) | by apply (Hnz _ _ HF)
      | by apply (Hnz _ _ HP)].
  - by intros ->.
Qed.

Lemma assert_fail_trap_keeps_memory_witness :
  memory (mkState assert_memory (str "ASSERT x>0 in main at a.c:??"))
  = memory (mkState assert_memory [])
  ∧ ∃ tail,
      putchar_calls (mkState assert_memory (str "ASSERT x>0 in main at a.c:??"))
      = putchar_calls (mkState assert_memory []) ++ tail
      ∧ (zero ∉ tail)
      ∧ (true = false → tail = []).
Proof.
  apply (assert_fail_trap_keeps_memory true image_literals 8 32 40 17 48
           (mkState assert_memory [])
           (mkState assert_memory (str "ASSERT x>0 in main at a.c:??"))).
  by vm_compute.
Defined.

(** X8. The converse of the message format: in a build with
    [KernelPrinting], with the literals in place, a run of [__assert_fail]
    reaches the trap only if expression, function and file are terminated
    strings, and then the host primitive received exactly the diagnostic
    built from them. *)
Theorem assert_fail_trap_only_with_strings L fuel expr file line func st st' :
  literals_loaded (memory st) L →
  __assert_fail true L fuel expr file line func st = Trap st' →
  ∃ E N F,
    cstring_at (memory st) expr E ∧ cstring_at (memory st) func N ∧
    cstring_at (memory st) file F ∧
    st' = mkState (memory st) (putchar_calls st ++ diagnostic E N F).
Proof.
  destruct st as [m out]. simpl. intros (LA & LI & LT & LP) H.
  apply assert_fail_traps in H as (A & E & I & N & T & F & P & -> & Hs).
  destruct (Hs eq_refl) as (HA & HE & HI & HN & HT & HF & HP).
  rewrite (cstring_at_functional _ _ _ _ HA LA).
  rewrite (cstring_at_functional _ _ _ _ HI LI).
  rewrite (cstring_at_functional _ _ _ _ HT LT).
  rewrite (cstring_at_functional _ _ _ _ HP LP).
  by exists E, N, F.
Qed.

Lemma assert_fail_trap_only_with_strings_witness :
  ∃ E N F,
    cstring_at (memory (mkState assert_memory [])) 32 E ∧
    cstring_at (memory (mkState assert_memory [])) 48 N ∧
    cstring_at (memory (mkState assert_memory [])) 40 F ∧
    mkState assert_memory (str "ASSERT x>0 in main at a.c:??")
    = mkState (memory (mkState assert_memory []))
        (putchar_calls (mkState assert_memory []) ++ diagnostic E N F).
Proof.
  apply (assert_fail_trap_only_with_strings image_literals 8 32 40 17 48
           (mkState assert_memory [])
           (mkState assert_memory (str "ASSERT x>0 in main at a.c:??"))).
  - exact assert_memory_literals.
  - by vm_compute.
Defined.

(** ** Composing calls *)

Lemma write_bytes_cstring m p cs :
  writable m p (size_with_terminator cs) →
  Forall (λ c, c ≠ zero) cs →
  cstring_at (write_bytes m p (with_terminator cs)) p cs.
Proof.
  intros Hw Hnz. apply cstring_at_of_lookup; [done|]. intros i Hi.
  apply write_bytes_lookup_inside; by rewrite length_with_terminator.
Qed.

Lemma cstring_at_write_bytes_outside m p cs q bs :
  cstring_at m p cs →
  p + Z.of_nat (length cs) < q ∨ q + Z.of_nat (length bs) ≤ p →
  cstring_at (write_bytes m q bs) p cs.
Proof.
  intros Hs Hout.
  apply cstring_at_of_lookup; [by eapply cstring_at_nonzero|].
  intros i Hi. rewrite write_bytes_lookup_outside.
  - by apply cstring_at_lookup.
  - unfold size_with_terminator in Hi. lia.
Qed.

Lemma writable_write_bytes m p n q bs :
  writable m p n → writable (write_bytes m q bs) p n.
Proof.
  revert m q. induction bs as [|b bs IH]; intros m q Hw; simpl; [done|].
  apply IH. by apply writable_insert.
Qed.

Lemma write_bytes_twice m p bs :
  writable m p (length bs) →
  write_bytes (write_bytes m p bs) p bs = write_bytes m p bs.
Proof.
  intros Hw. apply map_eq. intros a.
  destruct (decide (p ≤ a < p + Z.of_nat (length bs))) as [Hin|Hout].
  - replace a with (p + Z.of_nat (Z.to_nat (a - p))) by lia.
    rewrite !write_bytes_lookup_inside; try done; try lia.
    by apply writable_write_bytes.
  - by rewrite write_bytes_lookup_outside by lia.
Qed.

(** X9. The pointer [strcpy] returns can be handed on: after a valid copy,
    [debug_puts] on the returned pointer passes the bytes of the source to
    the host primitive. *)
Theorem strcpy_result_prints_source cs (m : gmap Z ascii) out s1 s2 fuel :
  cstring_at m s2 cs →
  writable m s1 (size_with_terminator cs) →
  copy_safe s1 s2 (size_with_terminator cs) →
  (length cs < fuel)%nat →
  (do r <- strcpy fuel s1 s2; debug_puts true fuel r) (mkState m out)
  = Ret tt (mkState (write_bytes m s1 (with_terminator cs)) (out ++ cs)).
Proof.
  intros Hs Hw Hsafe Hfuel.
  erewrite bind_Ret by (by apply strcpy_spec).
  apply (debug_puts_spec true); [|done].
  apply write_bytes_cstring; [done | by eapply cstring_at_nonzero].
Qed.

Lemma strcpy_result_prints_source_witness :
  (do r <- strcpy 3 200 100; debug_puts true 3 r) (mkState copy_memory [])
  = Ret tt (mkState (write_bytes copy_memory 200 (with_terminator (str "hi")))
              ([] ++ str "hi")).
Proof.
  apply (strcpy_result_prints_source (str "hi") copy_memory [] 200 100 3).
  - exact copy_memory_source.
  - exact copy_memory_destination.
  - right. unfold size_with_terminator. simpl. lia.
  - simpl. lia.
Defined.

(** X10. Chained use, [strcpy(d2, strcpy(d1, s))]: with three buffers that
    share no byte, the call returns [d2], both destinations hold the source
    string, the source still holds it, and every address outside the two
    destinations keeps its content. *)
Theorem strcpy_chain cs (m : gmap Z ascii) out d1 d2 s fuel :
  cstring_at m s cs →
  writable m d1 (size_with_terminator cs) →
  writable m d2 (size_with_terminator cs) →
  disjoint_buffers d1 s (size_with_terminator cs) →
  disjoint_buffers d2 s (size_with_terminator cs) →
  disjoint_buffers d2 d1 (size_with_terminator cs) →
  (length cs < fuel)%nat →
  ∃ m' : gmap Z ascii,
    (do r <- strcpy fuel d1 s; strcpy fuel d2 r) (mkState m out)
    = Ret d2 (mkState m' out)
    ∧ cstring_at m' d1 cs ∧ cstring_at m' d2 cs ∧ cstring_at m' s cs
    ∧ ∀ a, (a < d1 ∨ d1 + Z.of_nat (size_with_terminator cs) ≤ a) →
           (a < d2 ∨ d2 + Z.of_nat (size_with_terminator cs) ≤ a) →
           m' !! a = m !! a.
Proof.
  unfold disjoint_buffers.
  intros Hs Hw1 Hw2 Hd1 Hd2 Hd12 Hfuel.
  pose proof (cstring_at_nonzero _ _ _ Hs) as Hnz.
  assert (cstring_at (write_bytes m d1 (with_terminator cs)) d1 cs) as Hc1
    by by apply write_bytes_cstring.
  eexists. split.
  { erewrite bind_Ret by (apply strcpy_spec; [done..|unfold copy_safe; lia|done]).
    apply strcpy_spec; [done| |unfold copy_safe; lia|done].
    by apply writable_write_bytes. }
  unfold size_with_terminator in *.
  split; [|split; [|split]].
  - apply cstring_at_write_bytes_outside; [done|].
    rewrite length_with_terminator. unfold size_with_terminator. lia.
  - apply write_bytes_cstring; [|done]. by apply writable_write_bytes.
  - do 2 (apply cstring_at_write_bytes_outside;
      [|rewrite length_with_terminator; unfold size_with_terminator; lia]).
    done.
  - intros a Ha1 Ha2.
    rewrite !write_bytes_lookup_outside; [done|..];
      rewrite length_with_terminator; unfold size_with_terminator; lia.
Qed.

Lemma chain_memory_source : cstring_at chain_memory 100 (str "hi").
Proof. vm_compute. by repeat split. Qed.

Lemma chain_memory_first : writable chain_memory 200 3.
Proof. vm_compute. repeat split; by eexists. Qed.

Lemma chain_memory_second : writable chain_memory 300 3.
Proof. vm_compute. repeat split; by eexists. Qed.

Lemma strcpy_chain_witness :
  ∃ m' : gmap Z ascii,
    (do r <- strcpy 3 200 100; strcpy 3 300 r) (mkState chain_memory [])
    = Ret 300 (mkState m' [])
    ∧ cstring_at m' 200 (str "hi") ∧ cstring_at m' 300 (str "hi")
    ∧ cstring_at m' 100 (str "hi")
    ∧ ∀ a, (a < 200 ∨ 200 + Z.of_nat (size_with_terminator (str "hi")) ≤ a) →
           (a < 300 ∨ 300 + Z.of_nat (size_with_terminator (str "hi")) ≤ a) →
           m' !! a = chain_memory !! a.
Proof.
  apply (strcpy_chain (str "hi") chain_memory [] 200 300 100 3).
  - exact chain_memory_source.
  - exact chain_memory_first.
  - exact chain_memory_second.
  - right. unfold size_with_terminator. simpl. lia.
  - right. unfold size_with_terminator. simpl. lia.
  - right. unfold size_with_terminator. simpl. lia.
  - simpl. lia.
Defined.

(** X11. Copying again changes nothing: with source and destination sharing
    no byte, a second call of [strcpy] with the same arguments ends in the
    state the first one left. *)
Theorem strcpy_twice cs (m : gmap Z ascii) out s1 s2 fuel :
  cstring_at m s2 cs →
  writable m s1 (size_with_terminator cs) →
  disjoint_buffers s1 s2 (size_with_terminator cs) →
  (length cs < fuel)%nat →
  (strcpy fuel s1 s2;; strcpy fuel s1 s2) (mkState m out)
  = strcpy fuel s1 s2 (mkState m out).
Proof.
  unfold disjoint_buffers. intros Hs Hw Hdisj Hfuel.
  assert (copy_safe s1 s2 (size_with_terminator cs)) as Hsafe
    by (unfold copy_safe; lia).
  erewrite bind_Ret by (by apply strcpy_spec).
  rewrite (strcpy_spec cs m) by done.
  rewrite (strcpy_spec cs).
  - rewrite write_bytes_twice; [done|]. by rewrite length_with_terminator.
  - apply cstring_at_write_bytes_outside; [done|].
    rewrite length_with_terminator. unfold size_with_terminator in *. lia.
  - by apply writable_write_bytes.
  - done.
  - done.
Qed.

Lemma strcpy_twice_witness :
  (strcpy 3 200 100;; strcpy 3 200 100) (mkState copy_memory [])
  = strcpy 3 200 100 (mkState copy_memory []).
Proof.
  apply (strcpy_twice (str "hi") copy_memory [] 200 100 3).
  - exact copy_memory_source.
  - exact copy_memory_destination.
  - right. unfold size_with_terminator. simpl. lia.
  - simpl. lia.
Defined.

(** X12. A destination that starts before the source and reaches into it is
    filled correctly, but the copy runs over the source: afterwards the
    source pointer sees only the end of its string, the part that the
    destination did not reach. *)
Theorem strcpy_onto_head_shifts_source cs (m : gmap Z ascii) out s1 s2 fuel
    (d : nat) :
  cstring_at m s2 cs →
  writable m s1 (size_with_terminator cs) →
  s2 = s1 + Z.of_nat d →
  (0 < d ≤ length cs)%nat →
  (length cs < fuel)%nat →
  ∃ m' : gmap Z ascii,
    strcpy fuel s1 s2 (mkState m out) = Ret s1 (mkState m' out)
    ∧ cstring_at m' s1 cs
    ∧ cstring_at m' s2 (drop d cs)
    ∧ drop d cs ≠ cs.
Proof.
  intros Hs Hw -> Hd Hfuel.
  pose proof (cstring_at_nonzero _ _ _ Hs) as Hnz.
  eexists. split.
  { apply strcpy_spec; [done..|unfold copy_safe; lia|done]. }
  split; [by apply write_bytes_cstring|]. split.
  - apply cstring_at_of_lookup; [by apply Forall_drop|].
    unfold size_with_terminator. rewrite length_drop. intros i Hi.
    replace (s1 + Z.of_nat d + Z.of_nat i) with (s1 + Z.of_nat (d + i)) by lia.
    rewrite write_bytes_lookup_inside;
      [|by rewrite length_with_terminator
       |rewrite length_with_terminator; unfold size_with_terminator; lia].
    unfold with_terminator. rewrite <- lookup_drop.
    by rewrite drop_app_le by lia.
  - intros Heq. apply (f_equal length) in Heq.
    rewrite length_drop in Heq. lia.
Qed.

Lemma strcpy_onto_head_shifts_source_witness :
  ∃ m' : gmap Z ascii,
    strcpy 3 99 100 (mkState (reserve 99 1 copy_memory) [])
    = Ret 99 (mkState m' [])
    ∧ cstring_at m' 99 (str "hi")
    ∧ cstring_at m' 100 (drop 1 (str "hi"))
    ∧ drop 1 (str "hi") ≠ str "hi".
Proof.
  apply (strcpy_onto_head_shifts_source (str "hi") (reserve 99 1 copy_memory)
           [] 99 100 3 1).
  - vm_compute. by repeat split.
  - vm_compute. repeat split; by eexists.
  - reflexivity.
  - simpl. lia.
  - simpl. lia.
Defined.

(** ** Runs end *)

Lemma tail_of_memory_shrinks (m : gmap Z ascii) (p : Z) :
  is_Some (m !! p) →
  (size (filter (λ a : Z, (p + 1 ≤ a)%Z) (dom m))
   < size (filter (λ a : Z, (p ≤ a)%Z) (dom m)))%nat.
Proof.
  intros Hp. apply subset_size. split.
  - intros a. rewrite !elem_of_filter. intros [Ha Hin]. split; [lia | done].
  - intros Hsub. specialize (Hsub p). rewrite !elem_of_filter in Hsub.
    destruct Hsub as [Hlt _]; [|lia]. split; [lia | by apply elem_of_dom].
Qed.

Lemma tail_of_memory_size (m : gmap Z ascii) (p : Z) :
  (size (filter (λ a : Z, (p ≤ a)%Z) (dom m)) ≤ size (dom m))%nat.
Proof. apply subseteq_size. intros a. rewrite elem_of_filter. by intros [_ ?]. Qed.

Lemma strcpy_loop_stops fuel s1 (s2 : Z) (m : gmap Z ascii) out :
  (size (filter (λ a : Z, (s2 ≤ a)%Z) (dom m)) < fuel)%nat →
  strcpy_loop fuel s1 s2 (mkState m out) ≠ Timeout.
Proof.
  revert s1 s2 m. induction fuel as [|fuel IH]; intros s1 s2 m Hsize; [lia|].
  simpl. unfold bind, load, store. simpl.
  destruct (m !! s2) as [c|] eqn:E2; [|done]. simpl.
  destruct (m !! s1) as [c1|] eqn:E1; [|done].
  destruct (decide (c = zero)); [done|]. apply IH.
  rewrite dom_insert_lookup_L by by eexists.
  assert (is_Some (m !! s2)) as Hs2 by by eexists.
  apply tail_of_memory_shrinks in Hs2. lia.
Qed.

Lemma debug_puts_loop_stops fuel (s : Z) (m : gmap Z ascii) out :
  (size (filter (λ a : Z, (s ≤ a)%Z) (dom m)) < fuel)%nat →
  debug_puts_loop fuel s (mkState m out) ≠ Timeout.
Proof.
  revert s out. induction fuel as [|fuel IH]; intros s out Hsize; [lia|].
  simpl. unfold bind, load. simpl.
  destruct (m !! s) as [c|] eqn:E; [|done].
  destruct (decide (c = zero)); [done|]. simpl. apply IH.
  assert (is_Some (m !! s)) as Hs by by eexists.
  apply tail_of_memory_shrinks in Hs. lia.
Qed.

Lemma debug_puts_stops kp fuel s (m : gmap Z ascii) out :
  (size (dom m) < fuel)%nat →
  debug_puts kp fuel s (mkState m out) ≠ Timeout.
Proof.
  intros Hsize. destruct kp; [|done]. apply debug_puts_loop_stops.
  pose proof (tail_of_memory_size m s). lia.
Qed.

Lemma bind_debug_puts_stops {B} kp fuel s (k : unit → M B)
    (m : gmap Z ascii) out :
  (size (dom m) < fuel)%nat →
  (∀ u out', k u (mkState m out') ≠ Timeout) →
  bind (debug_puts kp fuel s) k (mkState m out) ≠ Timeout.
Proof.
  intros Hsize Hk. unfold bind.
  destruct (debug_puts kp fuel s (mkState m out)) as [u st'| | |] eqn:E;
    [|done|done|].
  - apply debug_puts_returns in E as (ds & -> & _). apply Hk.
  - by apply debug_puts_stops in E.
Qed.

Lemma strcpy_loop_no_Trap fuel s1 s2 st st' :
  strcpy_loop fuel s1 s2 st ≠ Trap st'.
Proof.
  revert s1 s2 st. induction fuel as [|fuel IH]; intros s1 s2 st H; [done|].
  simpl in H. apply bind_Trap_inv in H as [H|(c & sa & Hload & H)].
  - unfold load in H. by destruct (memory st !! s2).
  - apply bind_Trap_inv in H as [H|(u & sb & _ & H)].
    + unfold store in H. by destruct (memory sa !! s1).
    + destruct (decide (c = zero)); [done|]. by apply IH in H.
Qed.

(** X14. Memory is finite, so no run goes on for ever: with more fuel than
    there are allocated bytes, [strcpy], [debug_puts] and [__assert_fail] all
    end, for every argument; the loops stop at a terminator or at the first
    address that is not allocated. *)
Theorem runs_end_in_finite_memory kp L fuel st :
  (size (dom (memory st)) < fuel)%nat →
  (∀ s1 s2, strcpy fuel s1 s2 st ≠ Timeout)
  ∧ (∀ s, debug_puts kp fuel s st ≠ Timeout)
  ∧ (∀ expr file line func,
       __assert_fail kp L fuel expr file line func st ≠ Timeout).
Proof.
  destruct st as [m out]. simpl. intros Hsize. split; [|split].
  - intros s1 s2. unfold strcpy, bind.
    destruct (strcpy_loop fuel s1 s2 (mkState m out)) eqn:E; try done.
    apply strcpy_loop_stops in E; [done|].
    pose proof (tail_of_memory_size m s2). lia.
  - intros s. by apply debug_puts_stops.
  - intros expr file line func. unfold __assert_fail.
    do 7 (apply bind_debug_puts_stops; [done | intros _ ?]). done.
Qed.

Lemma runs_end_in_finite_memory_witness :
  strcpy 8 200 200 (mkState copy_memory []) ≠ Timeout.
Proof.
  assert (size (dom (memory (mkState copy_memory []))) < 8)%nat as Hsize
    by (vm_compute; lia).
  exact (proj1 (runs_end_in_finite_memory true image_literals 8
                  (mkState copy_memory []) Hsize) 200 200).
Defined.

(** X15. Overrun: on input without a terminator (every allocated byte from
    the pointer on is non-zero), and with more fuel than there are allocated
    bytes, [strcpy] and [debug_puts] built with [KernelPrinting] end in
    undefined behaviour, at the first address past the allocated bytes. *)
Theorem unterminated_input_is_undefined (m : gmap Z ascii) out s1 s2 fuel :
  (∀ a c, s2 ≤ a → m !! a = Some c → c ≠ zero) →
  (size (dom m) < fuel)%nat →
  strcpy fuel s1 s2 (mkState m out) = Undefined
  ∧ debug_puts true fuel s2 (mkState m out) = Undefined.
Proof.
  intros Hnz Hsize. split.
  - unfold strcpy, bind.
    destruct (strcpy_loop fuel s1 s2 (mkState m out)) as [[] st'|st'| |] eqn:E.
    + by apply strcpy_loop_unterminated in E.
    + by apply strcpy_loop_no_Trap in E.
    + done.
    + apply strcpy_loop_stops in E; [done|].
      pose proof (tail_of_memory_size m s2). lia.
  - destruct (debug_puts true fuel s2 (mkState m out)) as [u st'|st'| |] eqn:E.
    + apply debug_puts_returns in E as (ds & _ & Hds).
      destruct (Hds eq_refl) as [Hs _].
      apply cstring_at_lookup with (i := length ds) in Hs;
        [|unfold size_with_terminator; lia].
      unfold with_terminator in Hs. rewrite list_lookup_middle in Hs by done.
      exfalso. by apply (Hnz (s2 + Z.of_nat (length ds)) zero); [lia|done|].
    + by apply debug_puts_no_Trap in E.
    + done.
    + by apply debug_puts_stops in E.
Qed.

Lemma unterminated_input_is_undefined_witness :
  strcpy 8 100 200 (mkState copy_memory []) = Undefined
  ∧ debug_puts true 8 200 (mkState copy_memory []) = Undefined.
Proof.
  apply (unterminated_input_is_undefined copy_memory [] 100 200 8).
  - exact copy_memory_tail_nonzero.
  - vm_compute. lia.
Defined.

(** ** Sequences of calls and sizes *)

(** X16. Two calls of [debug_puts] in a row pass the bytes of the first
    string and then those of the second; with [KernelPrinting] off neither
    passes anything. *)
Theorem debug_puts_twice_concatenates kp cs ds (m : gmap Z ascii) out s t
    fuel :
  cstring_at m s cs → cstring_at m t ds →
  (length cs < fuel)%nat → (length ds < fuel)%nat →
  (debug_puts kp fuel s;; debug_puts kp fuel t) (mkState m out)
  = Ret tt (mkState m (out ++ emitted kp (cs ++ ds))).
Proof.
  intros Hs Ht Hfs Hft.
  erewrite bind_Ret by (by apply debug_puts_spec).
  rewrite (debug_puts_spec kp ds) by done.
  by rewrite emitted_app, app_assoc.
Qed.

Lemma debug_puts_twice_concatenates_witness :
  (debug_puts true 5 48;; debug_puts true 5 40) (mkState assert_memory [])
  = Ret tt (mkState assert_memory
              ([] ++ emitted true (str "main" ++ str "a.c"))).
Proof.
  apply (debug_puts_twice_concatenates true (str "main") (str "a.c")
           assert_memory [] 48 40 5).
  - exact assert_memory_func.
  - exact assert_memory_file.
  - simpl. lia.
  - simpl. lia.
Defined.

(** X17. With [KernelPrinting], a run of [__assert_fail] on terminated
    strings calls the host primitive eighteen times for the fixed text and
    once per byte of the expression, the function name and the file path. *)
Theorem assert_fail_number_of_calls L fuel expr file line func
    (m : gmap Z ascii) out E N F :
  literals_loaded m L →
  cstring_at m expr E → cstring_at m func N → cstring_at m file F →
  enough_fuel fuel E N F →
  ∃ st', __assert_fail true L fuel expr file line func (mkState m out)
         = Trap st'
    ∧ length (putchar_calls st')
      = (length out + 18 + length E + length N + length F)%nat.
Proof.
  intros HL HE HN HF Hfuel. eexists. split; [by apply assert_fail_spec|].
  simpl. unfold diagnostic. rewrite !length_app. simpl. lia.
Qed.

Lemma assert_fail_number_of_calls_witness :
  ∃ st', __assert_fail true image_literals 8 32 40 17 48
           (mkState assert_memory []) = Trap st'
    ∧ length (putchar_calls st')
      = (length (@nil ascii) + 18 + length (str "x>0") + length (str "main")
         + length (str "a.c"))%nat.
Proof.
  apply (assert_fail_number_of_calls image_literals 8 32 40 17 48
           assert_memory [] (str "x>0") (str "main") (str "a.c")).
  - exact assert_memory_literals.
  - exact assert_memory_expr.
  - exact assert_memory_func.
  - exact assert_memory_file.
  - exact fuel_8_enough.
Defined.

(** X18. The empty string: [strcpy] of an empty source stores one zero byte
    at the destination and nothing else, wherever the two buffers lie, and
    [debug_puts] of an empty string makes no call to the host primitive. *)
Theorem empty_string_edge kp (m : gmap Z ascii) out s1 s2 fuel :
  cstring_at m s2 [] →
  is_Some (m !! s1) →
  (0 < fuel)%nat →
  strcpy fuel s1 s2 (mkState m out)
  = Ret s1 (mkState (<[s1 := zero]> m) out)
  ∧ debug_puts kp fuel s2 (mkState m out) = Ret tt (mkState m out).
Proof.
  intros Hs Hs1 Hfuel. split.
  - rewrite (strcpy_spec [] m out s1 s2 fuel); [done|done| |..].
    + by split.
    + unfold copy_safe, size_with_terminator. simpl. lia.
    + done.
  - rewrite (debug_puts_spec kp [] m out s2 fuel) by done.
    destruct kp; simpl; by rewrite app_nil_r.
Qed.

Lemma empty_string_edge_witness :
  strcpy 1 32 60 (mkState assert_memory [])
  = Ret 32 (mkState (<[32 := zero]> assert_memory) [])
  ∧ debug_puts true 1 60 (mkState assert_memory [])
    = Ret tt (mkState assert_memory []).
Proof.
  apply (empty_string_edge true assert_memory [] 32 60 1).
  - exact assert_memory_empty.
  - vm_compute. by eexists.
  - lia.
Defined.
